(** * A shallow embedding of the badger LED-sign encoder (src/main.rs)

    Bytes ([u8]) and the [u16] size entries are modelled as [Z]; the wrap
    of Rust's [as] casts and [u8] shifts is written out with [Z.land] /
    [Z.modulo].  Rust panics (array index out of bounds, shift overflow)
    are modelled as an explicit [Panic] outcome. *)

From Stdlib Require Import List ZArith Lia Bool.
Import ListNotations.
Open Scope Z_scope.

(** ** Helpers for Rust slices and vectors *)

Section Slices.
Context {A : Type}.

(** [chunks_exact n]: the slice iterator of that name, which yields the
    [len / n] full chunks of [n] elements and drops the remainder.  The
    fuel argument is the slice length, which bounds the number of chunks
    for [n >= 1]. *)
Fixpoint chunks_exact_aux (n : nat) (fuel : nat) (l : list A) : list (list A) :=
  match fuel with
  | O => []
  | S f =>
      if Nat.leb n (length l) then firstn n l :: chunks_exact_aux n f (skipn n l)
      else []
  end.

Definition chunks_exact (n : nat) (l : list A) : list (list A) :=
  chunks_exact_aux n (length l) l.

(** [v[i] = x] on a fixed-size array: panics ([None]) out of range. *)
Fixpoint set_index (l : list A) (i : nat) (x : A) : option (list A) :=
  match l, i with
  | [], _ => None
  | _ :: t, O => Some (x :: t)
  | h :: t, S j => option_map (cons h) (set_index t j x)
  end.

End Slices.

(** ** The data model *)

(** [enum Mode] with its [#[repr(u8)]] discriminants. *)
Inductive Mode :=
| ScrollLeft | ScrollRight | ScrollUp | ScrollDown | Fixed
| Animation | Snowflake | Picture | Laser.

(** [mode as u8] *)
Definition mode_as_u8 (m : Mode) : Z :=
  match m with
  | ScrollLeft => 0 | ScrollRight => 1 | ScrollUp => 2 | ScrollDown => 3
  | Fixed => 4 | Animation => 5 | Snowflake => 6 | Picture => 7 | Laser => 8
  end.

(** [struct Bitmap]; [speed : u8] and the bytes of [data : Vec<u8>] are
    values in [0, 256). *)
Record Bitmap := mkBitmap {
  flash : bool;
  marquee : bool;
  mode : Mode;
  speed : Z;
  data : list Z;
}.

(** [Bitmap::default()] *)
Definition Bitmap_new : Bitmap :=
  {| flash := false; marquee := false; mode := ScrollLeft; speed := 0; data := [] |}.

(** [struct Data] *)
Record Data := mkData { bitmaps : list Bitmap }.

(** The outcome of [to_bytes]: the [Result<Vec<u8>, Box<dyn Error>>] it
    returns, or a panic. *)
Inductive Outcome :=
| Ok (bytes : list Z)
| Err
| Panic.

(** ** [Data::to_bytes] *)

(** [1u8 << i]: the shift amount must be below the bit width (a debug
    build panics on overflow; a release build masks it, but the same loop
    iteration then panics on [modes[i]] anyway). *)
Definition u8_shl1 (i : nat) : option Z :=
  if Nat.ltb i 8 then Some (Z.shiftl 1 (Z.of_nat i)) else None.

(** [bitmap.speed << 4 | (bitmap.mode as u8)] on [u8]. *)
Definition mode_byte (b : Bitmap) : Z :=
  Z.lor (Z.land (Z.shiftl (speed b) 4) 255) (mode_as_u8 (mode b)).

(** [bitmap.data.chunks_exact(11).count() as u16] *)
Definition size_entry (b : Bitmap) : Z :=
  Z.of_nat (length (chunks_exact 11 (data b))) mod 65536.

(** The loop state [(flash, marquee, modes, sizes)]. *)
Record Header := mkHeader {
  h_flash : Z;
  h_marquee : Z;
  h_modes : list Z;
  h_sizes : list Z;
}.

Definition header_init : Header :=
  {| h_flash := 0; h_marquee := 0; h_modes := repeat 0 8; h_sizes := repeat 0 8 |}.

(** One iteration of [for (i, bitmap) in self.bitmaps.iter().enumerate()]. *)
Definition header_step (i : nat) (b : Bitmap) (h : Header) : option Header :=
  match (if flash b then option_map (Z.lor (h_flash h)) (u8_shl1 i) else Some (h_flash h)) with
  | None => None
  | Some fl =>
  match (if marquee b then option_map (Z.lor (h_marquee h)) (u8_shl1 i) else Some (h_marquee h)) with
  | None => None
  | Some mq =>
  match set_index (h_modes h) i (mode_byte b) with
  | None => None
  | Some modes =>
  match set_index (h_sizes h) i (size_entry b) with
  | None => None
  | Some sizes => Some {| h_flash := fl; h_marquee := mq; h_modes := modes; h_sizes := sizes |}
  end end end end.

Fixpoint header_loop (i : nat) (bs : list Bitmap) (h : Header) : option Header :=
  match bs with
  | [] => Some h
  | b :: bs' =>
      match header_step i b h with
      | None => None
      | Some h' => header_loop (S i) bs' h'
      end
  end.

(** [size.to_be_bytes()] for a [u16]. *)
Definition u16_to_be_bytes (x : Z) : list Z := [Z.shiftr x 8; Z.land x 255].

(** [b"wang\0\0"] *)
Definition magic : list Z := [119; 97; 110; 103; 0; 0].

(** The bytes pushed before the pixel data. *)
Definition header_bytes (h : Header) : list Z :=
  magic ++ [h_flash h; h_marquee h] ++ h_modes h
  ++ flat_map u16_to_be_bytes (h_sizes h)
  ++ repeat 0 6    (* padding *)
  ++ repeat 0 6    (* timestamp - purpose unclear *)
  ++ repeat 0 4    (* padding *)
  ++ repeat 0 16.  (* separator *)

(** [data_bytes.checked_add(11)] on [u8]. *)
Definition u8_checked_add (x y : Z) : option Z :=
  if x + y <=? 255 then Some (x + y) else None.

(** The inner loop [for chunk in bitmap_data.chunks_exact(11)]: the
    output vector and the [u8] counter [data_bytes]. *)
Fixpoint push_chunks (cs : list (list Z)) (out : list Z) (data_bytes : Z) : list Z * Z :=
  match cs with
  | [] => (out, data_bytes)
  | c :: cs' =>
      let out' := out ++ c in
      match u8_checked_add data_bytes 11 with
      | None => push_chunks cs' out' data_bytes
      | Some n => push_chunks cs' out' n
      end
  end.

(** The outer loop over [self.bitmaps.iter().map(|bitmap| &bitmap.data)]. *)
Fixpoint push_data (bs : list Bitmap) (out : list Z) (data_bytes : Z) : list Z * Z :=
  match bs with
  | [] => (out, data_bytes)
  | b :: bs' =>
      let '(out', n) := push_chunks (chunks_exact 11 (data b)) out data_bytes in
      push_data bs' out' n
  end.

Definition to_bytes (self : Data) : Outcome :=
  match header_loop 0 (bitmaps self) header_init with
  | None => Panic
  | Some h =>
      let '(out, data_bytes) := push_data (bitmaps self) (header_bytes h) 0 in
      let padding := data_bytes mod 16 in
      Ok (if negb (padding =? 0) then out ++ repeat 0 (Z.to_nat padding) else out)
  end.

(** ** The transmission loop of [main]: [data_bytes.chunks_exact(16)] *)

Definition transport_chunks (stream : list Z) : list (list Z) := chunks_exact 16 stream.

(** ** [Bitmap::put_string] *)

(** A Rust [char], as its Unicode scalar value; a [&str] is walked as the
    sequence of its [chars()]. *)
Definition rchar := Z.

(** Modelled from the spec: the glyph table [font::get_char_data]
    (the module [font] is not part of the sources) maps a character to its
    7 pixel rows, a [[u8; 7]]. *)
Record Glyph := mkGlyph { g0 : Z; g1 : Z; g2 : Z; g3 : Z; g4 : Z; g5 : Z; g6 : Z }.

(** [char_data.iter()] *)
Definition glyph_rows (g : Glyph) : list Z := [g0 g; g1 g; g2 g; g3 g; g4 g; g5 g; g6 g].

(** [self] with its [data] field replaced. *)
Definition with_data (b : Bitmap) (d : list Z) : Bitmap :=
  {| flash := flash b; marquee := marquee b; mode := mode b; speed := speed b; data := d |}.

Section Raster.
Variable get_char_data : rchar -> Glyph.

(** [for (row_idx, &char_row) in char_data.iter().enumerate()
       { char_rows[row_idx + 2] = char_row; }] *)
Fixpoint copy_rows (rows : list Z) (row_idx : nat) (char_rows : list Z) : option (list Z) :=
  match rows with
  | [] => Some char_rows
  | r :: rs =>
      match set_index char_rows (row_idx + 2) r with
      | None => None
      | Some cr => copy_rows rs (S row_idx) cr
      end
  end.

(** The 11-row chunk of one character, starting from [vec![0u8; 11]]. *)
Definition char_chunk (c : rchar) : option (list Z) :=
  copy_rows (glyph_rows (get_char_data c)) 0 (repeat 0 11).

(** [for c in s.chars() { ...; self.data.extend_from_slice(&char_rows); }] *)
Fixpoint extend_chars (s : list rchar) (acc : list Z) : option (list Z) :=
  match s with
  | [] => Some acc
  | c :: s' =>
      match char_chunk c with
      | None => None
      | Some rows => extend_chars s' (acc ++ rows)
      end
  end.

(** [fn put_string(&mut self, s: &str)]: the updated bitmap, or [None] on
    a panic. *)
Definition put_string (self : Bitmap) (s : list rchar) : option Bitmap :=
  let self := with_data self [] in            (* self.data.clear() *)
  match extend_chars s (data self) with
  | None => None
  | Some d => Some (with_data self d)
  end.

(** The rasterization as the spec states it: per character, in order, the
    cell [0, 0, row0 .. row6, 0, 0]. *)
Definition spec_cell (c : rchar) : list Z := [0; 0] ++ glyph_rows (get_char_data c) ++ [0; 0].

Definition spec_rasterize (s : list rchar) : list Z := flat_map spec_cell s.

End Raster.

(** ** Spec-side definitions the claims are stated with *)

(** The bit mask the spec describes: the OR of [1 << i] over the slot
    indices [i] whose unit has [f] set. *)
Definition spec_mask (f : Bitmap -> bool) (us : list Bitmap) : Z :=
  fold_right Z.lor 0
    (map (fun i => Z.shiftl 1 (Z.of_nat i))
       (filter (fun i => f (nth i us Bitmap_new)) (seq 0 (length us)))).

(** The [Mode] of a discriminant. *)
Definition mode_of_u8 (x : Z) : option Mode :=
  match x with
  | 0 => Some ScrollLeft | 1 => Some ScrollRight | 2 => Some ScrollUp
  | 3 => Some ScrollDown | 4 => Some Fixed | 5 => Some Animation
  | 6 => Some Snowflake | 7 => Some Picture | 8 => Some Laser
  | _ => None
  end.

(** Decoding a mode byte: high nibble the speed, low nibble the mode. *)
Definition spec_decode_mode_byte (x : Z) : Z * option Mode :=
  (Z.shiftr x 4, mode_of_u8 (Z.land x 15)).

(** ** Sample inputs *)

(** The bitmap [main] builds before [put_string]. *)
Definition main_bitmap : Bitmap :=
  {| flash := false; marquee := false; mode := Fixed; speed := 5; data := [] |}.

(** A default bitmap holding [k] zero row-groups. *)
Definition zero_rows (k : nat) : Bitmap := with_data Bitmap_new (repeat 0 (11 * k)).

(** A bitmap with 65536 row-groups, one more than a [u16] holds. *)
Definition big_bitmap : Bitmap := with_data Bitmap_new (repeat 0 (Z.to_nat (11 * 65536))).

(** A bitmap whose 13 data bytes are one row-group and 2 extra bytes. *)
Definition ragged_bitmap : Bitmap := with_data main_bitmap [1; 2; 3; 4; 5; 6; 7; 8; 9; 10; 11; 12; 13].

(** A bitmap whose [u8] speed, 21, does not fit in 4 bits. *)
Definition fast_bitmap : Bitmap :=
  {| flash := false; marquee := false; mode := Laser; speed := 21; data := [] |}.

(** Three slots: flashing, marquee, both. *)
Definition three_slots : list Bitmap :=
  [ {| flash := true; marquee := false; mode := Fixed; speed := 5; data := [] |};
    {| flash := false; marquee := true; mode := Laser; speed := 15; data := [] |};
    {| flash := true; marquee := true; mode := ScrollUp; speed := 0; data := [] |} ].

(** A glyph table for the examples: "A" as 7 rows, every other
    character blank. *)
Definition font_A_only (c : rchar) : Glyph :=
  if c =? 65 then mkGlyph 24 36 66 126 66 66 66 else mkGlyph 0 0 0 0 0 0 0.

(** ** Closed forms used in the proofs *)

(** The mask the header loop accumulates from slot [i] on. *)
Fixpoint mask_at (f : Bitmap -> bool) (i : nat) (us : list Bitmap) : Z :=
  match us with
  | [] => 0
  | u :: us' => Z.lor (if f u then Z.shiftl 1 (Z.of_nat i) else 0) (mask_at f (S i) us')
  end.

(** The header the loop ends with, for at most 8 bitmaps. *)
Definition header_of (us : list Bitmap) : Header :=
  {| h_flash := mask_at flash 0 us;
     h_marquee := mask_at marquee 0 us;
     h_modes := map mode_byte us ++ repeat 0 (8 - length us);
     h_sizes := map size_entry us ++ repeat 0 (8 - length us) |}.

(** The pixel payload: every full 11-byte chunk of every bitmap, in order. *)
Definition payload (us : list Bitmap) : list Z :=
  flat_map (fun b => concat (chunks_exact 11 (data b))) us.

(** ** [Data::new], [Data::push_bitmap] *)

Definition Data_new : Data := mkData [].

(** [self.bitmaps.push(bitmap)] *)
Definition push_bitmap (self : Data) (b : Bitmap) : Data := mkData (bitmaps self ++ [b]).

(** The number of full 11-byte row-groups over all bitmaps, in order. *)
Definition row_groups (us : list Bitmap) : nat :=
  length (flat_map (fun b => chunks_exact 11 (data b)) us).

(** ** The send loop of [main]

    [for (i, chunk) in data_bytes.chunks_exact(16).enumerate()]: sleep,
    write the chunk without response, and print an error or a success
    line, each naming [i] and [data_bytes.len()]; a failed write is
    followed by [continue].  The outcome of [peripheral.write] is the
    environment's: [write i chunk] says whether the [i]-th write succeeds. *)
Inductive Event :=
| Sleep
| WriteChunk (chunk : list Z)
| Wrote (i : nat) (len : nat)
| ErrorWriting (i : nat) (len : nat).

Fixpoint send_loop (write : nat -> list Z -> bool) (len : nat) (i : nat)
    (cs : list (list Z)) : list Event :=
  match cs with
  | [] => []
  | c :: cs' =>
      Sleep :: WriteChunk c
      :: (if write i c then Wrote i len else ErrorWriting i len)
      :: send_loop write len (S i) cs'
  end.

Definition send_all (write : nat -> list Z -> bool) (data_bytes : list Z) : list Event :=
  send_loop write (length data_bytes) 0 (chunks_exact 16 data_bytes).

(** The chunks handed to [peripheral.write], in order. *)
Fixpoint written (ev : list Event) : list (list Z) :=
  match ev with
  | [] => []
  | WriteChunk c :: ev' => c :: written ev'
  | _ :: ev' => written ev'
  end.

(** ** Lemmas on the slice helpers *)

Section SliceLemmas.
Context {A : Type}.

Lemma firstn_add_skipn (a b : nat) (l : list A) :
  firstn (a + b) l = firstn a l ++ firstn b (skipn a l).
Proof.
  revert l; induction a as [|a IH]; intros [|x l]; simpl; auto.
  - now rewrite firstn_nil.
  - now rewrite IH.
Qed.

Variable n : nat.
Hypothesis n_pos : (1 <= n)%nat.

Lemma chunks_exact_aux_fuel (f1 f2 : nat) (l : list A) :
  (length l <= f1)%nat -> (length l <= f2)%nat ->
  chunks_exact_aux n f1 l = chunks_exact_aux n f2 l.
Proof.
  revert f2 l; induction f1 as [|f1 IH]; intros [|f2] l H1 H2.
  - reflexivity.
  - destruct l; [|simpl in H1; lia]. simpl.
    destruct (Nat.leb_spec n 0); [lia | reflexivity].
  - destruct l; [|simpl in H2; lia]. simpl.
    destruct (Nat.leb_spec n 0); [lia | reflexivity].
  - simpl. destruct (Nat.leb_spec n (length l)) as [Hle|]; [|reflexivity].
    f_equal. apply IH; rewrite length_skipn; lia.
Qed.

Lemma chunks_exact_app (x l : list A) :
  length x = n -> chunks_exact n (x ++ l) = x :: chunks_exact n l.
Proof.
  intros Hx. unfold chunks_exact. rewrite length_app.
  replace (length x + length l)%nat with (S (n - 1 + length l)) by lia. simpl.
  rewrite length_app. destruct (Nat.leb_spec n (length x + length l)); [|lia].
  rewrite firstn_app, skipn_app, Hx, Nat.sub_diag, firstn_all2, skipn_all2 by lia.
  simpl. rewrite app_nil_r. f_equal. apply chunks_exact_aux_fuel; lia.
Qed.

Lemma chunks_exact_aux_spec (f : nat) (l : list A) :
  (length l <= f)%nat ->
  length (chunks_exact_aux n f l) = (length l / n)%nat /\
  concat (chunks_exact_aux n f l) = firstn (n * (length l / n)) l /\
  Forall (fun c => length c = n) (chunks_exact_aux n f l).
Proof.
  revert l; induction f as [|f IH]; intros l Hl.
  - destruct l; [|simpl in Hl; lia]. simpl. rewrite Nat.Div0.div_0_l by lia.
    rewrite Nat.mul_0_r. auto.
  - simpl. destruct (Nat.leb_spec n (length l)) as [Hle|Hlt].
    + destruct (IH (skipn n l)) as (H1 & H2 & H3); [rewrite length_skipn; lia|].
      rewrite length_skipn in H1, H2.
      assert (Hd : (length l / n = 1 + (length l - n) / n)%nat).
      { replace (length l) with (1 * n + (length l - n))%nat at 1 by lia.
        apply Nat.div_add_l; lia. }
      rewrite Hd. split; [simpl; rewrite H1; reflexivity|split].
      * simpl concat. rewrite H2, Nat.mul_add_distr_l, Nat.mul_1_r, firstn_add_skipn.
        reflexivity.
      * constructor; [rewrite length_firstn; lia | exact H3].
    + rewrite Nat.div_small by lia. rewrite Nat.mul_0_r. simpl. auto.
Qed.

Lemma length_chunks_exact (l : list A) :
  length (chunks_exact n l) = (length l / n)%nat.
Proof. apply chunks_exact_aux_spec; lia. Qed.

Lemma concat_chunks_exact (l : list A) :
  concat (chunks_exact n l) = firstn (n * (length l / n)) l.
Proof. apply chunks_exact_aux_spec; lia. Qed.

Lemma chunks_exact_full (l : list A) :
  Forall (fun c => length c = n) (chunks_exact n l).
Proof. apply chunks_exact_aux_spec; lia. Qed.

End SliceLemmas.

Lemma set_index_spec {A} (l : list A) (i : nat) (x : A) :
  (i < length l)%nat -> set_index l i x = Some (firstn i l ++ x :: skipn (S i) l).
Proof.
  revert i; induction l as [|h t IH]; intros [|i] Hi; simpl in *; try lia.
  - reflexivity.
  - rewrite IH by lia. reflexivity.
Qed.

Lemma set_index_out {A} (l : list A) (i : nat) (x : A) :
  (length l <= i)%nat -> set_index l i x = None.
Proof.
  revert i; induction l as [|h t IH]; intros [|i] Hi; simpl in *; try lia; auto.
  rewrite IH by lia. reflexivity.
Qed.

Lemma splice_firstn {A} (l : list A) (i : nat) (x : A) :
  (i < length l)%nat ->
  firstn (S i) (firstn i l ++ x :: skipn (S i) l) = firstn i l ++ [x].
Proof.
  intros Hi. rewrite firstn_app, length_firstn, firstn_firstn.
  replace (Nat.min (S i) i) with i by lia.
  replace (Nat.min i (length l)) with i by lia.
  replace (S i - i)%nat with 1%nat by lia. reflexivity.
Qed.

Lemma splice_skipn {A} (l : list A) (i k : nat) (x : A) :
  (i < length l)%nat ->
  skipn (S i + k) (firstn i l ++ x :: skipn (S i) l) = skipn (i + S k) l.
Proof.
  intros Hi. rewrite skipn_app, length_firstn, skipn_all2 by (rewrite length_firstn; lia).
  replace (S i + k - Nat.min i (length l))%nat with (S k) by lia.
  rewrite app_nil_l.
  replace (skipn (S k) (x :: skipn (S i) l)) with (skipn k (skipn (S i) l)) by reflexivity.
  rewrite skipn_skipn. f_equal. lia.
Qed.

Lemma splice_length {A} (l : list A) (i : nat) (x : A) :
  (i < length l)%nat -> length (firstn i l ++ x :: skipn (S i) l) = length l.
Proof.
  intros Hi. rewrite length_app, length_firstn. cbn [length].
  rewrite length_skipn. lia.
Qed.

Lemma header_loop_spec (bs : list Bitmap) (i : nat) (h : Header) :
  (i + length bs <= 8)%nat -> length (h_modes h) = 8%nat -> length (h_sizes h) = 8%nat ->
  header_loop i bs h =
  Some {| h_flash := Z.lor (h_flash h) (mask_at flash i bs);
          h_marquee := Z.lor (h_marquee h) (mask_at marquee i bs);
          h_modes := firstn i (h_modes h) ++ map mode_byte bs ++ skipn (i + length bs) (h_modes h);
          h_sizes := firstn i (h_sizes h) ++ map size_entry bs ++ skipn (i + length bs) (h_sizes h) |}.
Proof.
  revert i h; induction bs as [|b bs IH]; intros i h Hlen Hm Hs.
  - simpl. rewrite !Z.lor_0_r, !Nat.add_0_r, !firstn_skipn. destruct h; reflexivity.
  - simpl in Hlen. simpl header_loop. unfold header_step, u8_shl1.
    destruct (Nat.ltb_spec i 8) as [Hi|Hi]; [|lia].
    rewrite (set_index_spec (h_modes h)) by lia.
    rewrite (set_index_spec (h_sizes h)) by lia.
    assert (Hfl : forall (c : bool) (acc : Z),
      (if c then option_map (Z.lor acc) (Some (Z.shiftl 1 (Z.of_nat i))) else Some acc)
      = Some (Z.lor acc (if c then Z.shiftl 1 (Z.of_nat i) else 0))).
    { intros [|] acc; simpl; now rewrite ?Z.lor_0_r. }
    rewrite !Hfl. rewrite IH; cbn [h_flash h_marquee h_modes h_sizes];
      [| lia | rewrite splice_length; lia | rewrite splice_length; lia].
    rewrite !splice_firstn, !splice_skipn by lia.
    rewrite <- !app_assoc, <- !Z.lor_assoc. reflexivity.
Qed.

Lemma skipn_repeat_sub {A} (x : A) (k n : nat) : skipn k (repeat x n) = repeat x (n - k).
Proof.
  revert n; induction k as [|k IH]; intros [|n]; simpl; auto.
Qed.

Lemma header_loop_init (us : list Bitmap) :
  (length us <= 8)%nat -> header_loop 0 us header_init = Some (header_of us).
Proof.
  intros H. rewrite header_loop_spec by (simpl; auto).
  change (h_modes header_init) with (repeat 0 8).
  change (h_sizes header_init) with (repeat 0 8). rewrite !skipn_repeat_sub.
  reflexivity.
Qed.

Lemma set_index_length {A} (l l' : list A) (i : nat) (x : A) :
  set_index l i x = Some l' -> length l' = length l.
Proof.
  revert i l'; induction l as [|h t IH]; intros [|i] l' E; simpl in E; try discriminate.
  - injection E as <-. reflexivity.
  - destruct (set_index t i x) as [t'|] eqn:Et; simpl in E; [|discriminate].
    injection E as <-. simpl. f_equal. eapply IH; eauto.
Qed.

Lemma header_step_modes_length (i : nat) (b : Bitmap) (h h' : Header) :
  header_step i b h = Some h' -> length (h_modes h') = length (h_modes h).
Proof.
  unfold header_step.
  destruct (if flash b then _ else _); [|discriminate].
  destruct (if marquee b then _ else _); [|discriminate].
  destruct (set_index (h_modes h) i (mode_byte b)) as [m|] eqn:Em; [|discriminate].
  destruct (set_index (h_sizes h) i (size_entry b)); [|discriminate].
  intros E. injection E as <-. simpl. eapply set_index_length; eauto.
Qed.

Lemma header_step_out (i : nat) (b : Bitmap) (h : Header) :
  length (h_modes h) = 8%nat -> (8 <= i)%nat -> header_step i b h = None.
Proof.
  intros Hm Hi. unfold header_step, u8_shl1.
  destruct (Nat.ltb_spec i 8); [lia|].
  destruct (flash b), (marquee b); simpl; try reflexivity;
    rewrite set_index_out by lia; reflexivity.
Qed.

(** With more than 8 bitmaps the header loop panics. *)
Lemma header_loop_panic (bs : list Bitmap) (i : nat) (h : Header) :
  length (h_modes h) = 8%nat -> (i <= 8)%nat -> (8 < i + length bs)%nat ->
  header_loop i bs h = None.
Proof.
  revert i h; induction bs as [|b bs IH]; intros i h Hm Hi Hlen; simpl in *; [lia|].
  destruct (Nat.eq_dec i 8) as [->|Hne].
  - rewrite header_step_out by (auto; lia). reflexivity.
  - destruct (header_step i b h) as [h'|] eqn:E; [|reflexivity].
    apply IH; [rewrite (header_step_modes_length _ _ _ _ E); exact Hm | lia | lia].
Qed.

Lemma push_chunks_out (cs : list (list Z)) (out : list Z) (db : Z) :
  exists n, push_chunks cs out db = (out ++ concat cs, n).
Proof.
  revert out db; induction cs as [|c cs IH]; intros out db; simpl.
  - exists db. now rewrite app_nil_r.
  - destruct (u8_checked_add db 11);
      [destruct (IH (out ++ c) z) as [n E] | destruct (IH (out ++ c) db) as [n E]];
      exists n; rewrite E, app_assoc; reflexivity.
Qed.

Lemma push_data_out (us : list Bitmap) (out : list Z) (db : Z) :
  exists n, push_data us out db = (out ++ payload us, n).
Proof.
  revert out db; induction us as [|u us IH]; intros out db; simpl.
  - exists db. now rewrite app_nil_r.
  - destruct (push_chunks_out (chunks_exact 11 (data u)) out db) as [m E].
    rewrite E. destruct (IH (out ++ concat (chunks_exact 11 (data u))) m) as [n E'].
    exists n. rewrite E', app_assoc. reflexivity.
Qed.

(** For at most 8 bitmaps, [to_bytes] returns the header, the payload and
    some trailing bytes. *)
Lemma to_bytes_ok (us : list Bitmap) :
  (length us <= 8)%nat ->
  exists pad, to_bytes (mkData us) = Ok (header_bytes (header_of us) ++ payload us ++ pad).
Proof.
  intros H. unfold to_bytes. cbn [bitmaps]. rewrite header_loop_init by exact H.
  destruct (push_data_out us (header_bytes (header_of us)) 0) as [n E]. rewrite E.
  destruct (negb (n mod 16 =? 0)).
  - eexists. rewrite <- app_assoc. reflexivity.
  - exists []. rewrite app_nil_r. reflexivity.
Qed.

Lemma header_of_modes_length (us : list Bitmap) :
  (length us <= 8)%nat -> length (h_modes (header_of us)) = 8%nat.
Proof. intros H. cbn [header_of h_modes h_sizes]. rewrite length_app, length_map, repeat_length. lia. Qed.

Lemma header_of_sizes_length (us : list Bitmap) :
  (length us <= 8)%nat -> length (h_sizes (header_of us)) = 8%nat.
Proof. intros H. cbn [header_of h_modes h_sizes]. rewrite length_app, length_map, repeat_length. lia. Qed.

Lemma byte_flash (h : Header) (r : list Z) : nth 6 (header_bytes h ++ r) 0 = h_flash h.
Proof. reflexivity. Qed.

Lemma byte_marquee (h : Header) (r : list Z) : nth 7 (header_bytes h ++ r) 0 = h_marquee h.
Proof. reflexivity. Qed.

Lemma byte_mode (h : Header) (r : list Z) (i : nat) :
  (i < length (h_modes h))%nat -> nth (8 + i) (header_bytes h ++ r) 0 = nth i (h_modes h) 0.
Proof.
  intros Hi. unfold header_bytes. rewrite <- !app_assoc. cbn [magic app nth Nat.add].
  apply app_nth1; exact Hi.
Qed.

Lemma nth_u16_be (l r : list Z) (i : nat) :
  (i < length l)%nat ->
  nth (2 * i) (flat_map u16_to_be_bytes l ++ r) 0 = Z.shiftr (nth i l 0) 8 /\
  nth (S (2 * i)) (flat_map u16_to_be_bytes l ++ r) 0 = Z.land (nth i l 0) 255.
Proof.
  revert i; induction l as [|x l IH]; intros i Hi; simpl in Hi; [lia|].
  destruct i as [|i]; [split; reflexivity|].
  replace (2 * S i)%nat with (S (S (2 * i))) by lia.
  apply IH. lia.
Qed.

Lemma byte_size (h : Header) (r : list Z) (i : nat) :
  length (h_modes h) = 8%nat -> (i < length (h_sizes h))%nat ->
  nth (16 + 2 * i) (header_bytes h ++ r) 0 = Z.shiftr (nth i (h_sizes h) 0) 8 /\
  nth (17 + 2 * i) (header_bytes h ++ r) 0 = Z.land (nth i (h_sizes h) 0) 255.
Proof.
  intros Hm Hi. unfold header_bytes. rewrite <- !app_assoc. cbn [magic app nth Nat.add].
  rewrite !(app_nth2 (h_modes h)) by lia. rewrite Hm.
  replace (S (S (S (S (S (S (S (S (2 * i)))))))) - 8)%nat with (2 * i)%nat by lia.
  replace (S (S (S (S (S (S (S (S (S (2 * i))))))))) - 8)%nat with (S (2 * i))%nat by lia.
  apply nth_u16_be. exact Hi.
Qed.

Lemma modes_nth (us : list Bitmap) (i : nat) :
  (i < length us)%nat -> nth i (h_modes (header_of us)) 0 = mode_byte (nth i us Bitmap_new).
Proof.
  intros Hi. cbn [header_of h_modes]. rewrite app_nth1 by (rewrite length_map; exact Hi).
  rewrite (nth_indep _ _ (mode_byte Bitmap_new)) by (rewrite length_map; exact Hi).
  apply map_nth.
Qed.

Lemma sizes_nth (us : list Bitmap) (i : nat) :
  (i < length us)%nat -> nth i (h_sizes (header_of us)) 0 = size_entry (nth i us Bitmap_new).
Proof.
  intros Hi. cbn [header_of h_sizes]. rewrite app_nth1 by (rewrite length_map; exact Hi).
  rewrite (nth_indep _ _ (size_entry Bitmap_new)) by (rewrite length_map; exact Hi).
  apply map_nth.
Qed.

Lemma size_entry_spec (b : Bitmap) :
  size_entry b = Z.of_nat (length (data b) / 11) mod 65536.
Proof. unfold size_entry. rewrite length_chunks_exact by lia. reflexivity. Qed.

Lemma mask_at_spec (f : Bitmap -> bool) (i : nat) (us : list Bitmap) :
  mask_at f i us =
  fold_right Z.lor 0
    (map (fun k => Z.shiftl 1 (Z.of_nat k))
       (filter (fun k => f (nth (k - i) us Bitmap_new)) (seq i (length us)))).
Proof.
  revert i; induction us as [|u us IH]; intros i; [reflexivity|].
  cbn [length seq filter mask_at]. rewrite Nat.sub_diag. cbn [nth].
  rewrite (filter_ext_in _ (fun k => f (nth (k - S i) us Bitmap_new))).
  - rewrite (IH (S i)). destruct (f u); reflexivity.
  - intros k Hk. apply in_seq in Hk.
    replace (k - i)%nat with (S (k - S i)) by lia. reflexivity.
Qed.

Lemma spec_mask_at (f : Bitmap -> bool) (us : list Bitmap) :
  spec_mask f us = mask_at f 0 us.
Proof.
  rewrite mask_at_spec. unfold spec_mask. f_equal. f_equal.
  apply filter_ext. intros k. now rewrite Nat.sub_0_r.
Qed.

Lemma mode_byte_decode (b : Bitmap) :
  0 <= speed b <= 15 -> spec_decode_mode_byte (mode_byte b) = (speed b, Some (mode b)).
Proof.
  destruct b as [fl mq m sp d]; cbn [speed mode]. intros Hs.
  assert (sp = 0 \/ sp = 1 \/ sp = 2 \/ sp = 3 \/ sp = 4 \/ sp = 5 \/ sp = 6 \/ sp = 7 \/
          sp = 8 \/ sp = 9 \/ sp = 10 \/ sp = 11 \/ sp = 12 \/ sp = 13 \/ sp = 14 \/ sp = 15)
    as Hc by lia.
  repeat destruct Hc as [-> | Hc]; [..| subst sp];
    destruct m; reflexivity.
Qed.

Lemma char_chunk_spec (gcd : rchar -> Glyph) (c : rchar) :
  char_chunk gcd c = Some (spec_cell gcd c).
Proof. unfold char_chunk, spec_cell. destruct (gcd c). reflexivity. Qed.

Lemma extend_chars_spec (gcd : rchar -> Glyph) (s : list rchar) (acc : list Z) :
  extend_chars gcd s acc = Some (acc ++ spec_rasterize gcd s).
Proof.
  revert acc; induction s as [|c s IH]; intros acc; cbn [extend_chars].
  - now rewrite app_nil_r.
  - rewrite char_chunk_spec, IH, <- app_assoc. reflexivity.
Qed.

Lemma put_string_spec (gcd : rchar -> Glyph) (b : Bitmap) (s : list rchar) :
  put_string gcd b s = Some (with_data b (spec_rasterize gcd s)).
Proof. unfold put_string. rewrite extend_chars_spec. reflexivity. Qed.

Lemma length_spec_cell (gcd : rchar -> Glyph) (c : rchar) : length (spec_cell gcd c) = 11%nat.
Proof. reflexivity. Qed.

Lemma length_spec_rasterize (gcd : rchar -> Glyph) (s : list rchar) :
  length (spec_rasterize gcd s) = (11 * length s)%nat.
Proof.
  induction s as [|c s IH]; [reflexivity|].
  cbn [spec_rasterize flat_map]. fold (spec_rasterize gcd s).
  rewrite length_app, IH, length_spec_cell. cbn [length]. lia.
Qed.

Lemma chunks_spec_rasterize (gcd : rchar -> Glyph) (s : list rchar) :
  chunks_exact 11 (spec_rasterize gcd s) = map (spec_cell gcd) s.
Proof.
  induction s as [|c s IH]; [reflexivity|].
  cbn [spec_rasterize flat_map map]. fold (spec_rasterize gcd s).
  rewrite chunks_exact_app by (lia || apply length_spec_cell). now rewrite IH.
Qed.

(** ** The claims *)

(** C1 (the claim fails on the code): the trailing padding is
    [data_bytes % 16], not [(16 - P mod 16) mod 16], and [data_bytes] is a
    [u8] counter that stops growing at 253.  One row-group (P = 11) gets 11
    padding bytes, not 5, so P plus padding is 22, not a multiple of 16;
    32 row-groups (P = 352, a multiple of 16) get 13 padding bytes, not 0. *)
Lemma C1_padding_is_counter_mod_16 :
  to_bytes (mkData [zero_rows 1]) =
    Ok (header_bytes (header_of [zero_rows 1]) ++ repeat 0 11 ++ repeat 0 11) /\
  ((11 + 11) mod 16 <> 0)%nat /\
  to_bytes (mkData [zero_rows 32]) =
    Ok (header_bytes (header_of [zero_rows 32]) ++ repeat 0 352 ++ repeat 0 13).
Proof. split; [vm_compute; reflexivity | split; [discriminate | vm_compute; reflexivity]]. Qed.

(** C2 counterexample: with a glyph table whose "A" has a non-zero first
    row, byte 66 of the stream is that row, inside the 38 zero bytes the
    claim places after the size table (offsets 32 to 69): the code puts
    only 32 zero bytes there.  The stream is also 86 bytes long, not 80. *)
Lemma C2_A_stream_layout :
  exists b bytes,
    put_string font_A_only main_bitmap [65] = Some b /\
    to_bytes (mkData [b]) = Ok bytes /\
    nth 66 bytes 0 = 24 /\ length bytes = 86%nat.
Proof.
  eexists; eexists. split; [reflexivity|]. split; [vm_compute; reflexivity|].
  split; reflexivity.
Qed.

(** C2 (amended): the bitmap of [main] holding the rasterization of "A"
    encodes, whatever the glyph table, to the magic, flash 0, marquee 0,
    mode bytes [0x54, 0, ..., 0], the size table [1, 0, ..., 0] as
    big-endian [u16]s and 32 zero bytes (a 64-byte header), followed by the
    11 pixel bytes and then the trailing bytes. *)
Theorem C2_scenario_A (get_char_data : rchar -> Glyph) :
  exists b pad,
    put_string get_char_data main_bitmap [65] = Some b /\
    to_bytes (mkData [b]) =
      Ok (magic ++ [0; 0] ++ [84; 0; 0; 0; 0; 0; 0; 0] ++ [0; 1] ++ repeat 0 14
          ++ repeat 0 32 ++ spec_cell get_char_data 65 ++ pad).
Proof.
  exists (with_data main_bitmap (spec_rasterize get_char_data [65])), (repeat 0 11).
  split; [apply put_string_spec|].
  unfold spec_rasterize, spec_cell. cbn [flat_map]. destruct (get_char_data 65).
  reflexivity.
Qed.

(** C3 counterexample: a 17-byte stream gives one chunk, not two, and the
    chunks concatenate to its first 16 bytes only. *)
Lemma C3_partial_chunk_dropped :
  length (transport_chunks (repeat 0 17)) = 1%nat /\
  concat (transport_chunks (repeat 0 17)) <> repeat 0 17.
Proof. split; [reflexivity | vm_compute; discriminate]. Qed.

(** C3 (amended): [chunks_exact(16)] yields [len / 16] chunks (rounded
    down), each of exactly 16 bytes, whose concatenation in order is the
    stream's first [16 * (len / 16)] bytes: a final partial chunk is
    dropped, and no chunk is padded. *)
Theorem C3_transport_chunks_exact (stream : list Z) :
  length (transport_chunks stream) = (length stream / 16)%nat /\
  concat (transport_chunks stream) = firstn (16 * (length stream / 16)) stream /\
  Forall (fun c => length c = 16%nat) (transport_chunks stream).
Proof.
  unfold transport_chunks.
  split; [|split]; [apply length_chunks_exact | apply concat_chunks_exact | apply chunks_exact_full];
    lia.
Qed.

(** C4 counterexample: nine bitmaps make [to_bytes] panic; it does not
    return an error. *)
Lemma C4_nine_bitmaps_panic :
  to_bytes (mkData (repeat Bitmap_new 9)) = Panic /\
  to_bytes (mkData (repeat Bitmap_new 9)) <> Err.
Proof. split; [reflexivity | discriminate]. Qed.

(** C4 (amended): with more than 8 bitmaps, [to_bytes] panics in its
    header loop (index 8 of [modes] is out of bounds); no byte stream and
    no error value is returned. *)
Theorem C4_more_than_8_panics (us : list Bitmap) :
  (8 < length us)%nat -> to_bytes (mkData us) = Panic.
Proof.
  intros H. unfold to_bytes. cbn [bitmaps].
  rewrite header_loop_panic by (simpl; lia). reflexivity.
Qed.

Lemma C4_more_than_8_panics_witness :
  (8 < length (repeat Bitmap_new 9))%nat /\ to_bytes (mkData (repeat Bitmap_new 9)) = Panic.
Proof.
  split; [simpl; lia | apply (C4_more_than_8_panics (repeat Bitmap_new 9)); simpl; lia].
Defined.

(** C5 counterexample: a bitmap of 65536 row-groups is not rejected; its
    size-table entry wraps to 0. *)
Lemma C5_big_bitmap_wraps :
  exists bytes, to_bytes (mkData [big_bitmap]) = Ok bytes /\
    nth 16 bytes 0 = 0 /\ nth 17 bytes 0 = 0.
Proof.
  destruct (to_bytes_ok [big_bitmap]) as [pad E]; [simpl; lia|].
  exists (header_bytes (header_of [big_bitmap]) ++ payload [big_bitmap] ++ pad).
  split; [exact E|].
  assert (Hs : size_entry big_bitmap = 0).
  { rewrite size_entry_spec. unfold big_bitmap, with_data. cbn [data].
    rewrite repeat_length, Nat2Z.inj_div, Z2Nat.id by lia. reflexivity. }
  destruct (byte_size (header_of [big_bitmap]) (payload [big_bitmap] ++ pad) 0)
    as [H1 H2].
  - apply header_of_modes_length. simpl. lia.
  - rewrite header_of_sizes_length; simpl; lia.
  - rewrite sizes_nth in H1, H2 by (simpl; lia). cbn [nth] in H1, H2.
    rewrite Hs in H1, H2. split; [exact H1 | exact H2].
Qed.

(** C5 (amended): a row-group count above 65535 is not rejected: with at
    most 8 bitmaps [to_bytes] returns a stream, and the size-table entry of
    bitmap [i] is its row-group count [length data / 11] truncated to 16
    bits ([as u16]), written big-endian. *)
Theorem C5_size_entry_truncated (us : list Bitmap) (i : nat) :
  (length us <= 8)%nat -> (i < length us)%nat ->
  exists bytes, to_bytes (mkData us) = Ok bytes /\
    let c := Z.of_nat (length (data (nth i us Bitmap_new)) / 11) in
    nth (16 + 2 * i) bytes 0 = (c mod 65536) / 256 /\
    nth (17 + 2 * i) bytes 0 = (c mod 65536) mod 256.
Proof.
  intros H Hi. destruct (to_bytes_ok us H) as [pad E].
  eexists. split; [exact E|]. cbv zeta.
  destruct (byte_size (header_of us) (payload us ++ pad) i) as [H1 H2].
  - apply header_of_modes_length; exact H.
  - rewrite header_of_sizes_length by exact H. lia.
  - rewrite sizes_nth, size_entry_spec in H1, H2 by exact Hi.
    rewrite H1, H2, Z.shiftr_div_pow2 by lia.
    change 255 with (Z.ones 8). rewrite Z.land_ones by lia. split; reflexivity.
Qed.

Lemma C5_size_entry_truncated_witness :
  (length [big_bitmap] <= 8)%nat /\ (0 < length [big_bitmap])%nat /\
  exists bytes, to_bytes (mkData [big_bitmap]) = Ok bytes /\
    let c := Z.of_nat (length (data (nth 0 [big_bitmap] Bitmap_new)) / 11) in
    nth (16 + 2 * 0) bytes 0 = (c mod 65536) / 256 /\
    nth (17 + 2 * 0) bytes 0 = (c mod 65536) mod 256.
Proof.
  split; [simpl; lia | split; [simpl; lia |]].
  apply (C5_size_entry_truncated [big_bitmap] 0); simpl; lia.
Defined.

(** C6: [put_string] makes the data [11 * length s] bytes long, and its
    11-byte chunks are, in character order, [0, 0, row0 .. row6, 0, 0] for
    the glyph rows of each character. *)
Theorem C6_rasterize_shape (get_char_data : rchar -> Glyph) (b : Bitmap) (s : list rchar) :
  exists b', put_string get_char_data b s = Some b' /\
    length (data b') = (11 * length s)%nat /\
    chunks_exact 11 (data b') = map (fun c => [0; 0] ++ glyph_rows (get_char_data c) ++ [0; 0]) s.
Proof.
  eexists. split; [apply put_string_spec|]. cbn [with_data data].
  split; [apply length_spec_rasterize | apply chunks_spec_rasterize].
Qed.

(** C7: for at most 8 bitmaps, byte 6 of the stream is the OR of [1 << i]
    over the slots [i] with [flash] set, and byte 7 the same for
    [marquee]. *)
Theorem C7_bitmasks (us : list Bitmap) :
  (length us <= 8)%nat ->
  exists bytes, to_bytes (mkData us) = Ok bytes /\
    nth 6 bytes 0 = spec_mask flash us /\ nth 7 bytes 0 = spec_mask marquee us.
Proof.
  intros H. destruct (to_bytes_ok us H) as [pad E].
  eexists. split; [exact E|].
  rewrite byte_flash, byte_marquee, !spec_mask_at. split; reflexivity.
Qed.

Lemma C7_bitmasks_witness :
  (length three_slots <= 8)%nat /\
  exists bytes, to_bytes (mkData three_slots) = Ok bytes /\
    nth 6 bytes 0 = spec_mask flash three_slots /\ nth 7 bytes 0 = spec_mask marquee three_slots.
Proof. split; [simpl; lia | apply C7_bitmasks; simpl; lia]. Defined.

(** C8: for at most 8 bitmaps and a slot [i] whose speed is in [0, 15],
    the mode byte [8 + i] of the stream decodes (high nibble, low nibble)
    to that speed and mode. *)
Theorem C8_mode_byte_roundtrip (us : list Bitmap) (i : nat) :
  (length us <= 8)%nat -> (i < length us)%nat ->
  0 <= speed (nth i us Bitmap_new) <= 15 ->
  exists bytes, to_bytes (mkData us) = Ok bytes /\
    spec_decode_mode_byte (nth (8 + i) bytes 0) =
      (speed (nth i us Bitmap_new), Some (mode (nth i us Bitmap_new))).
Proof.
  intros H Hi Hs. destruct (to_bytes_ok us H) as [pad E].
  eexists. split; [exact E|].
  rewrite byte_mode by (rewrite header_of_modes_length by exact H; lia).
  rewrite modes_nth by exact Hi. apply mode_byte_decode. exact Hs.
Qed.

Lemma C8_mode_byte_roundtrip_witness :
  (length three_slots <= 8)%nat /\ (1 < length three_slots)%nat /\
  0 <= speed (nth 1 three_slots Bitmap_new) <= 15 /\
  exists bytes, to_bytes (mkData three_slots) = Ok bytes /\
    spec_decode_mode_byte (nth (8 + 1) bytes 0) =
      (speed (nth 1 three_slots Bitmap_new), Some (mode (nth 1 three_slots Bitmap_new))).
Proof.
  split; [simpl; lia | split; [simpl; lia | split; [simpl; lia |]]].
  apply C8_mode_byte_roundtrip; simpl; lia.
Defined.

(** C9: [to_bytes] is a function of the ordered bitmaps alone: two calls
    on the same bitmaps give the same outcome. *)
Theorem C9_to_bytes_deterministic (d1 d2 : Data) :
  bitmaps d1 = bitmaps d2 -> to_bytes d1 = to_bytes d2.
Proof.
  intros E. unfold to_bytes. rewrite E. reflexivity.
Qed.

Lemma C9_to_bytes_deterministic_witness :
  bitmaps (mkData three_slots) = bitmaps (mkData three_slots) /\
  to_bytes (mkData three_slots) = to_bytes (mkData three_slots).
Proof. split; [reflexivity | apply C9_to_bytes_deterministic; reflexivity]. Defined.

(** C10: [put_string] replaces the data: whatever the bitmap held, the
    result holds exactly the rasterization of [s], of [11 * length s]
    bytes, and the other fields are unchanged. *)
Theorem C10_put_string_replaces (get_char_data : rchar -> Glyph) (b : Bitmap) (s : list rchar) :
  put_string get_char_data b s = Some (with_data b (spec_rasterize get_char_data s)) /\
  length (spec_rasterize get_char_data s) = (11 * length s)%nat /\
  (forall d, put_string get_char_data (with_data b d) s = put_string get_char_data b s).
Proof.
  split; [apply put_string_spec | split; [apply length_spec_rasterize |]].
  intros d. rewrite !put_string_spec. reflexivity.
Qed.

(** ** Further properties of the code *)

Lemma push_chunks_counter (cs : list (list Z)) (out : list Z) (j : nat) :
  (j <= 23)%nat ->
  snd (push_chunks cs out (11 * Z.of_nat j)) = 11 * Z.of_nat (Nat.min (j + length cs) 23).
Proof.
  revert out j; induction cs as [|c cs IH]; intros out j Hj; cbn [push_chunks length].
  - cbn [snd]. f_equal. f_equal. lia.
  - unfold u8_checked_add. destruct (Z.leb_spec (11 * Z.of_nat j + 11) 255) as [Hle|Hgt].
    + replace (11 * Z.of_nat j + 11) with (11 * Z.of_nat (S j)) by lia.
      rewrite IH by lia. f_equal. f_equal. lia.
    + assert (j = 23%nat) by lia. subst j. rewrite IH by lia. f_equal. f_equal. lia.
Qed.

Lemma push_data_counter (us : list Bitmap) (out : list Z) (j : nat) :
  (j <= 23)%nat ->
  snd (push_data us out (11 * Z.of_nat j)) = 11 * Z.of_nat (Nat.min (j + row_groups us) 23).
Proof.
  unfold row_groups.
  revert out j; induction us as [|u us IH]; intros out j Hj; cbn [push_data flat_map].
  - cbn [snd length]. f_equal. f_equal. lia.
  - destruct (push_chunks_out (chunks_exact 11 (data u)) out (11 * Z.of_nat j)) as [m E].
    pose proof (push_chunks_counter (chunks_exact 11 (data u)) out j Hj) as Hc.
    rewrite E in Hc. cbn [snd] in Hc. rewrite E, Hc.
    rewrite IH by lia. rewrite length_app. f_equal. f_equal. lia.
Qed.

Lemma length_concat_chunks (l : list Z) :
  length (concat (chunks_exact 11 l)) = (11 * length (chunks_exact 11 l))%nat.
Proof.
  rewrite concat_chunks_exact, length_chunks_exact, length_firstn by lia.
  pose proof (Nat.Div0.mul_div_le (length l) 11). lia.
Qed.

Lemma length_payload (us : list Bitmap) : length (payload us) = (11 * row_groups us)%nat.
Proof.
  unfold payload, row_groups. induction us as [|u us IH]; [reflexivity|].
  cbn [flat_map]. rewrite !length_app, IH, length_concat_chunks. lia.
Qed.

(** X1: for at most 8 bitmaps, [to_bytes] returns the 64-byte header, the
    pixel payload and [(11 * min k 23) mod 16] zero bytes, where [k] is the
    number of full row-groups: the [u8] counter stops at 23 row-groups. *)
Theorem to_bytes_trailing_padding (us : list Bitmap) :
  (length us <= 8)%nat ->
  to_bytes (mkData us) =
    Ok (header_bytes (header_of us) ++ payload us
        ++ repeat 0 ((11 * Nat.min (row_groups us) 23) mod 16)).
Proof.
  intros H. unfold to_bytes. cbn [bitmaps]. rewrite header_loop_init by exact H.
  destruct (push_data_out us (header_bytes (header_of us)) 0) as [n E].
  pose proof (push_data_counter us (header_bytes (header_of us)) 0 ltac:(lia)) as Hc.
  change (11 * Z.of_nat 0) with 0 in Hc. cbn [Nat.add] in Hc.
  rewrite E in Hc. cbn [snd] in Hc. rewrite E.
  set (m := Nat.min (row_groups us) 23) in *.
  assert (Hn : n mod 16 = Z.of_nat ((11 * m) mod 16)).
  { rewrite Hc, Nat2Z.inj_mod, Nat2Z.inj_mul. reflexivity. }
  rewrite Hn, Nat2Z.id. rewrite <- app_assoc.
  destruct ((11 * m) mod 16)%nat as [|p] eqn:Ep; cbn [Z.of_nat Z.eqb negb].
  - rewrite app_nil_r. reflexivity.
  - reflexivity.
Qed.

Lemma length_header_bytes (h : Header) :
  length (h_modes h) = 8%nat -> length (h_sizes h) = 8%nat ->
  length (header_bytes h) = 64%nat.
Proof.
  intros Hm Hs. unfold header_bytes. rewrite !length_app, Hm.
  assert (Hf : forall l, length (flat_map u16_to_be_bytes l) = (2 * length l)%nat).
  { induction l as [|x l IH]; [reflexivity|].
    cbn [flat_map length]. rewrite length_app, IH. cbn [length u16_to_be_bytes]. lia. }
  rewrite Hf, Hs. reflexivity.
Qed.

(** X2: for at most 8 bitmaps the stream is [64 + 11 k + (11 * min k 23) mod 16]
    bytes long, [k] being the number of full row-groups. *)
Theorem to_bytes_length (us : list Bitmap) :
  (length us <= 8)%nat ->
  exists bytes, to_bytes (mkData us) = Ok bytes /\
    length bytes = (64 + 11 * row_groups us + (11 * Nat.min (row_groups us) 23) mod 16)%nat.
Proof.
  intros H. eexists. split; [apply to_bytes_trailing_padding; exact H|].
  rewrite !length_app, length_header_bytes, length_payload, repeat_length;
    [lia | apply header_of_modes_length | apply header_of_sizes_length]; exact H.
Qed.

Lemma to_bytes_length_witness :
  (length three_slots <= 8)%nat /\
  exists bytes, to_bytes (mkData three_slots) = Ok bytes /\
    length bytes = (64 + 11 * row_groups three_slots
                    + (11 * Nat.min (row_groups three_slots) 23) mod 16)%nat.
Proof. split; [simpl; lia | apply to_bytes_length; simpl; lia]. Defined.

(** X3: for at most 8 bitmaps, the mode byte and the two size bytes of
    every unused slot [i] (from [length us] to 7) are zero. *)
Theorem unused_slots_zero (us : list Bitmap) (i : nat) :
  (length us <= i < 8)%nat ->
  exists bytes, to_bytes (mkData us) = Ok bytes /\
    nth (8 + i) bytes 0 = 0 /\ nth (16 + 2 * i) bytes 0 = 0 /\ nth (17 + 2 * i) bytes 0 = 0.
Proof.
  intros Hi. destruct (to_bytes_ok us ltac:(lia)) as [pad E].
  eexists. split; [exact E|].
  assert (Hz : forall f : Bitmap -> Z,
    nth i (map f us ++ repeat 0 (8 - length us)) 0 = 0).
  { intros f. rewrite app_nth2 by (rewrite length_map; lia).
    rewrite length_map. apply nth_repeat. }
  rewrite byte_mode by (rewrite header_of_modes_length; lia).
  destruct (byte_size (header_of us) (payload us ++ pad) i) as [H1 H2];
    [apply header_of_modes_length; lia | rewrite header_of_sizes_length; lia |].
  rewrite H1, H2. cbn [header_of h_modes h_sizes]. rewrite !Hz.
  split; [reflexivity | split; reflexivity].
Qed.

Lemma unused_slots_zero_witness :
  (length three_slots <= 5 < 8)%nat /\
  exists bytes, to_bytes (mkData three_slots) = Ok bytes /\
    nth (8 + 5) bytes 0 = 0 /\ nth (16 + 2 * 5) bytes 0 = 0 /\ nth (17 + 2 * 5) bytes 0 = 0.
Proof. split; [simpl; lia | apply unused_slots_zero; simpl; lia]. Defined.

Lemma mask_at_testbit (f : Bitmap -> bool) (i : nat) (us : list Bitmap) (k : nat) :
  Z.testbit (mask_at f i us) (Z.of_nat k) =
  if andb (Nat.leb i k) (Nat.ltb k (i + length us)) then f (nth (k - i) us Bitmap_new)
  else false.
Proof.
  revert i; induction us as [|u us IH]; intros i; cbn [mask_at length].
  - rewrite Z.bits_0.
    destruct (Nat.leb_spec i k), (Nat.ltb_spec k (i + 0)); try lia; reflexivity.
  - rewrite Z.lor_spec, IH.
    assert (Hb : Z.testbit (if f u then Z.shiftl 1 (Z.of_nat i) else 0) (Z.of_nat k)
                 = andb (f u) (Nat.eqb i k)).
    { destruct (f u); [|apply Z.bits_0].
      rewrite Z.shiftl_1_l, Z.pow2_bits_eqb by lia.
      destruct (Nat.eqb_spec i k), (Z.eqb_spec (Z.of_nat i) (Z.of_nat k)); auto; lia. }
    rewrite Hb.
    destruct (Nat.eqb_spec i k) as [<-|Hne].
    + rewrite Nat.sub_diag, Nat.leb_refl.
      replace (Nat.leb (S i) i) with false by (symmetry; apply Nat.leb_gt; lia).
      replace (Nat.ltb i (i + S (length us))) with true by (symmetry; apply Nat.ltb_lt; lia).
      cbn [andb nth]. destruct (f u); reflexivity.
    + rewrite andb_false_r. cbn [orb].
      destruct (Nat.leb_spec (S i) k), (Nat.leb_spec i k); try lia;
        cbn [andb]; try reflexivity.
      replace (k - i)%nat with (S (k - S i)) by lia. cbn [nth].
      replace (S i + length us)%nat with (i + S (length us))%nat by lia. reflexivity.
Qed.

(** X4: [push_bitmap] puts the pushed bitmap in the next slot: after
    pushing [b] onto [n < 8] bitmaps, byte [8 + n] of the stream is [b]'s
    mode byte and bit [n] of the flash and marquee bytes is [b]'s flag. *)
Theorem push_bitmap_next_slot (d : Data) (b : Bitmap) :
  (length (bitmaps d) < 8)%nat ->
  exists bytes, to_bytes (push_bitmap d b) = Ok bytes /\
    nth (8 + length (bitmaps d)) bytes 0 = mode_byte b /\
    Z.testbit (nth 6 bytes 0) (Z.of_nat (length (bitmaps d))) = flash b /\
    Z.testbit (nth 7 bytes 0) (Z.of_nat (length (bitmaps d))) = marquee b.
Proof.
  intros H. set (n := length (bitmaps d)).
  assert (Hl : length (bitmaps d ++ [b]) = S n) by (rewrite length_app; cbn; lia).
  destruct (to_bytes_ok (bitmaps d ++ [b]) ltac:(lia)) as [pad E].
  eexists. split; [exact E|].
  rewrite byte_mode, byte_flash, byte_marquee, modes_nth by
    (try rewrite header_of_modes_length; lia).
  cbn [header_of h_flash h_marquee]. rewrite !mask_at_testbit, Hl.
  replace (Nat.leb 0 n && Nat.ltb n (0 + S n))%bool with true
    by (symmetry; apply andb_true_iff; split; [apply Nat.leb_le | apply Nat.ltb_lt]; lia).
  rewrite Nat.sub_0_r, app_nth2 by lia. unfold n. rewrite Nat.sub_diag.
  split; [reflexivity | split; reflexivity].
Qed.

Lemma push_bitmap_next_slot_witness :
  (length (bitmaps (mkData three_slots)) < 8)%nat /\
  exists bytes, to_bytes (push_bitmap (mkData three_slots) main_bitmap) = Ok bytes /\
    nth (8 + length (bitmaps (mkData three_slots))) bytes 0 = mode_byte main_bitmap /\
    Z.testbit (nth 6 bytes 0) (Z.of_nat (length (bitmaps (mkData three_slots)))) = flash main_bitmap /\
    Z.testbit (nth 7 bytes 0) (Z.of_nat (length (bitmaps (mkData three_slots)))) = marquee main_bitmap.
Proof. split; [simpl; lia | apply push_bitmap_next_slot; simpl; lia]. Defined.

Lemma send_loop_written (write : nat -> list Z -> bool) (len i : nat) (cs : list (list Z)) :
  written (send_loop write len i cs) = cs.
Proof.
  revert i; induction cs as [|c cs IH]; intros i; [reflexivity|].
  cbn [send_loop written]. destruct (write i c); cbn [written]; now rewrite IH.
Qed.

Lemma send_loop_errors (write : nat -> list Z -> bool) (len i : nat) (cs : list (list Z))
    (j n : nat) :
  In (ErrorWriting j n) (send_loop write len i cs) <->
  n = len /\ (i <= j)%nat /\
  exists c, nth_error cs (j - i) = Some c /\ write j c = false.
Proof.
  revert i; induction cs as [|c cs IH]; intros i; cbn [send_loop In].
  - split; [tauto|]. intros (_ & _ & c & Hc & _). destruct (j - i)%nat; discriminate.
  - rewrite IH. split.
    + intros [E|[E|[E|(Hn & Hij & c' & Hc & Hw)]]]; try discriminate.
      * destruct (write i c) eqn:Ew; [discriminate|]. injection E as -> ->.
        split; [reflexivity|]. split; [lia|]. exists c. now rewrite Nat.sub_diag.
      * split; [exact Hn|]. split; [lia|]. exists c'.
        replace (j - i)%nat with (S (j - S i)) by lia. split; assumption.
    + intros (Hn & Hij & c' & Hc & Hw).
      destruct (Nat.eq_dec i j) as [<-|Hne].
      * rewrite Nat.sub_diag in Hc. injection Hc as <-. rewrite Hw, Hn. right; right; left. reflexivity.
      * right; right; right. split; [exact Hn|]. split; [lia|]. exists c'.
        replace (j - i)%nat with (S (j - S i)) in Hc by lia. split; assumption.
Qed.

(** X5: whatever the outcome of each write, [main]'s send loop hands every
    16-byte chunk of [chunks_exact(16)] to [peripheral.write] exactly once
    and in order (a failed write neither stops nor repeats the sending),
    and it reports an error for chunk [j], naming the stream's byte length,
    exactly when the write of that chunk fails. *)
Theorem send_all_every_chunk (write : nat -> list Z -> bool) (data_bytes : list Z) :
  written (send_all write data_bytes) = transport_chunks data_bytes /\
  (forall j n, In (ErrorWriting j n) (send_all write data_bytes) <->
     n = length data_bytes /\
     exists c, nth_error (transport_chunks data_bytes) j = Some c /\ write j c = false).
Proof.
  split; [apply send_loop_written|].
  intros j n. unfold send_all. rewrite send_loop_errors, Nat.sub_0_r.
  unfold transport_chunks. split.
  - intros (Hn & _ & H). split; assumption.
  - intros (Hn & H). split; [exact Hn | split; [lia | exact H]].
Qed.

(** X6: for at most 8 bitmaps holding [k <= 23] full row-groups, the
    chunks [main] sends (the stream cut by [chunks_exact(16)]) contain the
    whole header and pixel payload exactly when [11 k mod 16] is 0 or at
    least 8; otherwise the last pixel bytes are never sent (two row-groups,
    for one, lose their last 6 bytes). *)
Theorem transmitted_covers_payload (us : list Bitmap) :
  (length us <= 8)%nat -> (row_groups us <= 23)%nat ->
  exists bytes, to_bytes (mkData us) = Ok bytes /\
    ((64 + 11 * row_groups us <= length (concat (transport_chunks bytes)))%nat <->
     ((11 * row_groups us) mod 16 = 0 \/ 8 <= (11 * row_groups us) mod 16)%nat).
Proof.
  intros H Hk. eexists. split; [apply to_bytes_trailing_padding; exact H|].
  unfold transport_chunks. rewrite concat_chunks_exact, length_firstn by lia.
  rewrite !length_app, length_header_bytes, length_payload, repeat_length
    by (apply header_of_modes_length || apply header_of_sizes_length; exact H).
  replace (Nat.min (row_groups us) 23) with (row_groups us) by lia.
  set (k := row_groups us).
  set (len := (64 + (11 * k + (11 * k) mod 16))%nat).
  pose proof (Nat.div_mod_eq (11 * k) 16) as E1.
  pose proof (Nat.mod_upper_bound (11 * k) 16 ltac:(lia)) as R1.
  pose proof (Nat.div_mod_eq len 16) as E2.
  pose proof (Nat.mod_upper_bound len 16 ltac:(lia)) as R2.
  pose proof (Nat.Div0.mul_div_le len 16) as Hle.
  replace (Nat.min (16 * (len / 16)) len) with (16 * (len / 16))%nat by lia.
  unfold len in *. lia.
Qed.

Lemma transmitted_covers_payload_witness :
  let us := [with_data main_bitmap (spec_rasterize font_A_only [65; 82; 65; 70; 69; 68; 68])] in
  (length us <= 8)%nat /\ (row_groups us <= 23)%nat /\
  exists bytes, to_bytes (mkData us) = Ok bytes /\
    ((64 + 11 * row_groups us <= length (concat (transport_chunks bytes)))%nat <->
     ((11 * row_groups us) mod 16 = 0 \/ 8 <= (11 * row_groups us) mod 16)%nat).
Proof.
  cbv zeta. split; [simpl; lia | split; [vm_compute; lia |]].
  apply transmitted_covers_payload; [simpl; lia | vm_compute; lia].
Defined.

Lemma length_full_rows (d : list Z) :
  length (firstn (11 * (length d / 11)) d) = (11 * (length d / 11))%nat.
Proof.
  rewrite length_firstn. pose proof (Nat.Div0.mul_div_le (length d) 11). lia.
Qed.

Lemma full_rows_div (d : list Z) :
  (length (firstn (11 * (length d / 11)) d) / 11 = length d / 11)%nat.
Proof. rewrite length_full_rows, Nat.mul_comm, Nat.div_mul by lia. reflexivity. Qed.

Lemma mask_at_map (f : Bitmap -> bool) (g : Bitmap -> Bitmap) (i : nat) (us : list Bitmap) :
  (forall b, f (g b) = f b) -> mask_at f i (map g us) = mask_at f i us.
Proof.
  intros Hf. revert i; induction us as [|u us IH]; intros i; [reflexivity|].
  cbn [map mask_at]. rewrite Hf, IH. reflexivity.
Qed.

(** X7: for at most 8 bitmaps, the bytes of a bitmap's data after its last
    full 11-byte row-group have no effect on the stream: [to_bytes] gives
    the same outcome when every bitmap's data is cut to its full
    row-groups. *)
Theorem to_bytes_ignores_partial_rows (us : list Bitmap) :
  (length us <= 8)%nat ->
  to_bytes (mkData us) =
  to_bytes (mkData (map (fun b => with_data b (firstn (11 * (length (data b) / 11)) (data b))) us)).
Proof.
  intros H. set (g := fun b => with_data b (firstn (11 * (length (data b) / 11)) (data b))).
  rewrite !to_bytes_trailing_padding by (try rewrite length_map; exact H).
  assert (Hsz : forall b, size_entry (g b) = size_entry b).
  { intros b. rewrite !size_entry_spec. unfold g, with_data. cbn [data].
    rewrite full_rows_div. reflexivity. }
  assert (Hch : forall b, length (chunks_exact 11 (data (g b))) = length (chunks_exact 11 (data b))).
  { intros b. rewrite !length_chunks_exact by lia. unfold g, with_data. cbn [data].
    apply full_rows_div. }
  assert (Hcc : forall b, concat (chunks_exact 11 (data (g b))) = concat (chunks_exact 11 (data b))).
  { intros b. rewrite !concat_chunks_exact by lia. unfold g, with_data. cbn [data].
    rewrite full_rows_div, firstn_firstn, Nat.min_id. reflexivity. }
  assert (Hh : header_of (map g us) = header_of us).
  { unfold header_of. rewrite !mask_at_map by reflexivity.
    rewrite !map_map, length_map.
    rewrite (map_ext (fun x => size_entry (g x)) size_entry) by exact Hsz.
    reflexivity. }
  assert (Hp : payload (map g us) = payload us).
  { unfold payload. clear H Hh. induction us as [|u us IH]; [reflexivity|].
    cbn [map flat_map]. rewrite Hcc, IH. reflexivity. }
  assert (Hr : row_groups (map g us) = row_groups us).
  { unfold row_groups. clear H Hh Hp. induction us as [|u us IH]; [reflexivity|].
    cbn [map flat_map]. rewrite !length_app, Hch, IH. reflexivity. }
  rewrite Hh, Hp, Hr. reflexivity.
Qed.

Lemma to_bytes_ignores_partial_rows_witness :
  (length [ragged_bitmap] <= 8)%nat /\
  to_bytes (mkData [ragged_bitmap]) =
  to_bytes (mkData (map (fun b => with_data b (firstn (11 * (length (data b) / 11)) (data b)))
                    [ragged_bitmap])).
Proof. split; [simpl; lia | apply to_bytes_ignores_partial_rows; simpl; lia]. Defined.

(** X8: for at most 8 bitmaps the stream starts with the magic
    ["wang\0\0"], and bytes 32 to 63 (padding, timestamp, padding,
    separator) are all zero. *)
Theorem to_bytes_fixed_fields (us : list Bitmap) :
  (length us <= 8)%nat ->
  exists bytes, to_bytes (mkData us) = Ok bytes /\
    firstn 6 bytes = magic /\ firstn 32 (skipn 32 bytes) = repeat 0 32.
Proof.
  intros H. destruct (to_bytes_ok us H) as [pad E].
  eexists. split; [exact E|]. split; [reflexivity|].
  pose proof (header_of_modes_length us H) as Hm.
  pose proof (header_of_sizes_length us H) as Hs.
  set (h := header_of us) in *.
  assert (Hpre : length (magic ++ [h_flash h; h_marquee h] ++ h_modes h
                          ++ flat_map u16_to_be_bytes (h_sizes h)) = 32%nat).
  { pose proof (length_header_bytes h Hm Hs) as L. unfold header_bytes in L.
    rewrite !length_app, !repeat_length in L. rewrite !length_app. cbn [length] in *. lia. }
  replace (header_bytes h) with
    ((magic ++ [h_flash h; h_marquee h] ++ h_modes h ++ flat_map u16_to_be_bytes (h_sizes h))
     ++ repeat 0 32) by (unfold header_bytes; rewrite <- !app_assoc; reflexivity).
  rewrite <- app_assoc, skipn_app, Hpre, Nat.sub_diag, skipn_all2 by lia.
  rewrite app_nil_l. cbn [skipn]. rewrite firstn_app, repeat_length, Nat.sub_diag.
  rewrite firstn_all2 by (rewrite repeat_length; lia). cbn [firstn]. apply app_nil_r.
Qed.

Lemma to_bytes_fixed_fields_witness :
  (length three_slots <= 8)%nat /\
  exists bytes, to_bytes (mkData three_slots) = Ok bytes /\
    firstn 6 bytes = magic /\ firstn 32 (skipn 32 bytes) = repeat 0 32.
Proof. split; [simpl; lia | apply to_bytes_fixed_fields; simpl; lia]. Defined.

Lemma shl4_u8 (s : Z) : 0 <= s -> Z.land (Z.shiftl s 4) 255 = (s mod 16) * 16.
Proof.
  intros Hs. change 255 with (Z.ones 8). rewrite Z.land_ones, Z.shiftl_mul_pow2 by lia.
  change (2 ^ 8) with (16 * 16). change (2 ^ 4) with 16.
  apply Z.mul_mod_distr_r; lia.
Qed.

(** X9: the packed mode byte keeps only the low 4 bits of a [u8] speed
    ([speed << 4] drops the rest): it decodes to [speed mod 16] and the
    mode, so a speed of 16 or more is silently wrapped. *)
Theorem mode_byte_speed_wraps (b : Bitmap) :
  0 <= speed b < 256 ->
  spec_decode_mode_byte (mode_byte b) = (speed b mod 16, Some (mode b)).
Proof.
  intros Hs.
  set (b' := {| flash := flash b; marquee := marquee b; mode := mode b;
                speed := speed b mod 16; data := data b |}).
  assert (E : mode_byte b = mode_byte b').
  { unfold mode_byte, b'. cbn [speed mode].
    rewrite !shl4_u8 by (pose proof (Z.mod_pos_bound (speed b) 16); lia).
    rewrite Z.mod_mod by lia. reflexivity. }
  rewrite E, mode_byte_decode; [reflexivity|].
  unfold b'; cbn [speed]. pose proof (Z.mod_pos_bound (speed b) 16). lia.
Qed.

Lemma mode_byte_speed_wraps_witness :
  0 <= speed fast_bitmap < 256 /\
  spec_decode_mode_byte (mode_byte fast_bitmap)
  = (speed fast_bitmap mod 16,
     Some (mode fast_bitmap)).
Proof. split; [simpl; lia | apply mode_byte_speed_wraps; simpl; lia]. Defined.

Lemma to_bytes_trailing_padding_witness :
  (length three_slots <= 8)%nat /\
  to_bytes (mkData three_slots) =
    Ok (header_bytes (header_of three_slots) ++ payload three_slots
        ++ repeat 0 ((11 * Nat.min (row_groups three_slots) 23) mod 16)).
Proof. split; [simpl; lia | apply to_bytes_trailing_padding; simpl; lia]. Defined.
